(** * cfganalyze: the analyzer engine (analyzer.go)

    A shallow embedding of the package's analyzer: the source loader
    ([newAnalyzer], [connect], [read]) and the four public operations
    ([ScanJson], [PrintJson], [ScanEnv], [PrintEnv]), together with the
    format-specific extractors they drive.

    Effects are explicit.  File reads, the two remote-shell commands and
    the lines written to standard output are the only interactions of the
    package with its environment; each of them is answered by a [World]
    and recorded, in order, in a log of [event]s. *)

From Stdlib Require Import Ascii.
From stdpp Require Import gmap strings list fin_maps pretty.

(** ** Go values *)

(** [[]byte]: a sequence of 8-bit characters. *)
Abbreviation bytes := string (only parsing).

(** The [error] interface, observed through its message; [None] is [nil]. *)
Abbreviation error := (option string) (only parsing).

(** A call with the Go result pair [(value, error)] where exactly one of
    the two is meaningful. *)
Inductive result (A : Type) : Type :=
  | Ok (a : A)
  | Err (msg : string).
Arguments Ok {A} a.
Arguments Err {A} msg.

(** ** The environment and the effect monad *)

Inductive event : Type :=
  | EvSsh (host : string)
  | EvReadFile (path : string)
  | EvScp (host path : string)
  | EvPrint (text : string).

(** What the outside answers: [ioutil.ReadFile], and the two commands of
    the remote transport, [ssh] (does a session open?) and [scp] (the
    bytes of a remote path). *)
Record World : Type := {
  readFile : string → result bytes;
  ssh_session : string → error;
  scp_fetch : string → string → result bytes
}.

Definition M (A : Type) : Type := World → list event → A * list event.

Definition ret {A} (a : A) : M A := λ _ t, (a, t).

Definition bind {A B} (c : M A) (k : A → M B) : M B :=
  λ w t, let '(a, t') := c w t in k a w t'.

Notation "'let!' x ':=' c 'in' k" := (bind c (λ x, k))
  (at level 10, x pattern, c at level 100, k at level 200).
Notation "'do!' c 'in' k" := (bind c (λ _, k))
  (at level 10, c at level 100, k at level 200).

Definition emit (e : event) : M unit := λ _ t, (tt, t ++ [e]).

Definition ask {A} (f : World → A) : M A := λ w t, (f w, t).

(** The Go result pair [([]byte, error)] of a read: the bytes with a nil
    error, or the nil slice with the error. *)
Definition go_pair (r : result bytes) : bytes * error :=
  match r with
  | Ok b => (b, None)
  | Err e => (EmptyString, Some e)
  end.

(** [ioutil.ReadFile(path)] *)
Definition ReadFile (path : string) : M (bytes * error) :=
  do! emit (EvReadFile path) in ask (λ w, go_pair (readFile w path)).

(** [fmt.Printf], after formatting. *)
Definition Printf (text : string) : M unit := emit (EvPrint text).

(** [fmt.Errorf("could not connect to host %s. %s", hostAlias, err)] *)
Definition connect_error (hostAlias err : string) : string :=
  "could not connect to host " +:+ hostAlias +:+ ". " +:+ err.

(** [fmt.Errorf("could not open %s. %s", path, err)] *)
Definition open_error (path err : string) : string :=
  "could not open " +:+ path +:+ ". " +:+ err.

(** [%+v] of a [[]string]: the elements between brackets, separated by
    one space. *)
Fixpoint join_with (sep : string) (l : list string) : string :=
  match l with
  | [] => EmptyString
  | [x] => x
  | x :: l' => x +:+ sep +:+ join_with sep l'
  end.

Definition show_slice (l : list string) : string :=
  "[" +:+ join_with " " l +:+ "]".

Definition newline : string := String "010"%char EmptyString.

(** The character [U+0022], spelt by its code. *)
Definition dquote : string := String "034"%char EmptyString.

(** ["(!) found missing keys in %s: %+v\n"] *)
Definition missing_report (workingPath : string) (missing : list string) : string :=
  "(!) found missing keys in " +:+ workingPath +:+ ": " +:+
  show_slice missing +:+ newline.

(** ["(!) %s and %s are different. Ignore if this is intentional\n"] *)
Definition different_report (workingPath masterPath : string) : string :=
  "(!) " +:+ workingPath +:+ " and " +:+ masterPath +:+
  " are different. Ignore if this is intentional" +:+ newline.

(** ["%+v\n"] *)
Definition slice_line (l : list string) : string := show_slice l +:+ newline.

(** ** The remote transport and the configuration *)

(** Modelled from the spec: the [bash] type and [newBash], [ssh] and [scp]
    are in the package but not in analyzer.go.  A [bash] value is the
    session handle for one host: [newBash] returns a non-nil handle for
    the alias, [ssh] tries to open a session to it and [scp] fetches the
    bytes of a remote path through it. *)
Record bash : Type := { host : string }.

(** Modelled from the spec: [newBash] (not in analyzer.go) returns the
    handle for the alias; it is never nil. *)
Definition newBash (hostAlias : string) : bash := {| host := hostAlias |}.

(** Modelled from the spec: [ssh] (not in analyzer.go) tries to open a
    session and returns the transport's error, if any. *)
Definition ssh (b : bash) : M error :=
  do! emit (EvSsh (host b)) in ask (λ w, ssh_session w (host b)).

(** Modelled from the spec: [scp] (not in analyzer.go) fetches the bytes
    of a remote path, or fails; like [ReadFile] it returns the pair
    [([]byte, error)]. *)
Definition scp (b : bash) (path : string) : M (bytes * error) :=
  do! emit (EvScp (host b) path) in ask (λ w, go_pair (scp_fetch w (host b) path)).

(** Modelled from the spec: [Config] is declared outside analyzer.go; the
    code reads three string fields of it. *)
Record Config : Type := {
  HostAlias : string;
  WorkingPath : string;
  MasterPath : string
}.

(** ** analyzer.go *)

(** [type analyzer struct]; the pointer [*bash] is [None] when nil. *)
Record analyzer : Type := {
  working : bytes;
  master : bytes;
  bash_ : option bash;
  missing : list string;
  different : list string
}.

(** [analyzer{}] *)
Definition analyzer_zero : analyzer :=
  {| working := EmptyString; master := EmptyString; bash_ := None; missing := []; different := [] |}.

Definition set_working (a : analyzer) (b : bytes) : analyzer :=
  {| working := b; master := master a; bash_ := bash_ a;
     missing := missing a; different := different a |}.

Definition set_master (a : analyzer) (b : bytes) : analyzer :=
  {| working := working a; master := b; bash_ := bash_ a;
     missing := missing a; different := different a |}.

Definition set_bash (a : analyzer) (b : bash) : analyzer :=
  {| working := working a; master := master a; bash_ := Some b;
     missing := missing a; different := different a |}.

Definition set_missing (a : analyzer) (l : list string) : analyzer :=
  {| working := working a; master := master a; bash_ := bash_ a;
     missing := l; different := different a |}.

Definition set_different (a : analyzer) (l : list string) : analyzer :=
  {| working := working a; master := master a; bash_ := bash_ a;
     missing := missing a; different := l |}.

(** [func (a *analyzer) connect(hostAlias string) error].  The receiver is
    updated in place, so the new analyzer is returned with the error.  The
    value built by [fmt.Errorf] when [ssh] fails is not used: the method
    falls through to [return nil]. *)
Definition connect (a : analyzer) (hostAlias : string) : M (analyzer * error) :=
  let b := newBash hostAlias in
  let a := set_bash a b in
  let! err := ssh b in
  match err with
  | Some e => let _ := connect_error hostAlias e in ret (a, None)
  | None => ret (a, None)
  end.

(** [func (a *analyzer) read(workingPath, masterPath string) error].
    Each buffer is assigned from the call's result pair before the error
    of the pair is tested, so a failed read leaves the nil slice in the
    field. *)
Definition read (a : analyzer) (workingPath masterPath : string) : M (analyzer * error) :=
  let! (wb, err) := ReadFile workingPath in
  let a := set_working a wb in
  match err with
  | Some e => ret (a, Some (open_error workingPath e))
  | None =>
      match bash_ a with
      | Some b =>
          let! (mb, err) := scp b masterPath in
          let a := set_master a mb in
          match err with
          | Some e => ret (a, Some (open_error masterPath e))
          | None => ret (a, None)
          end
      | None =>
          let! (mb, err) := ReadFile masterPath in
          let a := set_master a mb in
          match err with
          | Some e => ret (a, Some (open_error masterPath e))
          | None => ret (a, None)
          end
      end
  end.

(** [func newAnalyzer(c Config)], returning a pointer to the analyzer or
    an error. *)
Definition newAnalyzer (c : Config) : M (result analyzer) :=
  let a := analyzer_zero in
  let! r := (if bool_decide (0 < String.length (HostAlias c))
             then connect a (HostAlias c)
             else ret (a, None)) in
  match r with
  | (_, Some e) => ret (Err e)
  | (a, None) =>
      let! r := read a (WorkingPath c) (MasterPath c) in
      match r with
      | (_, Some e) => ret (Err e)
      | (a, None) => ret (Ok a)
      end
  end.

(** ** The public operations

    [newJsonAnalyzer], [newEnvAnalyzer], the two [scan] methods and
    [equality] live in json.go and env.go.  analyzer.go only calls them,
    so here they are parameters: what is proved of the four operations in
    this section holds whatever the format analyzers do. *)
Section Operations.
Context {jsonAnalyzer envAnalyzer : Type}.

(** [newJsonAnalyzer(c)] *)
Variable newJsonAnalyzer : Config → M (result jsonAnalyzer).
(** [analyzer.scan()] on a json analyzer: the receiver after the call. *)
Variable json_scan : jsonAnalyzer → M jsonAnalyzer.
(** [analyzer.missing] *)
Variable json_missing : jsonAnalyzer → list string.
(** [analyzer.equality()] *)
Variable equality : jsonAnalyzer → M (result bool).

(** [newEnvAnalyzer(c)] *)
Variable newEnvAnalyzer : Config → M (result envAnalyzer).
(** [analyzer.scan()] on an env analyzer. *)
Variable env_scan : envAnalyzer → M envAnalyzer.
(** [analyzer.missing] and [analyzer.different] *)
Variable env_missing : envAnalyzer → list string.
Variable env_different : envAnalyzer → list string.

(** [func ScanJson(c Config) ([]string, error)]; the nil slice is [[]]. *)
Definition ScanJson (c : Config) : M (list string * error) :=
  let! r := newJsonAnalyzer c in
  match r with
  | Err e => ret ([], Some e)
  | Ok a =>
      let! a := json_scan a in
      ret (json_missing a, None)
  end.

(** [func PrintJson(c Config) error] *)
Definition PrintJson (c : Config) : M error :=
  let! r := newJsonAnalyzer c in
  match r with
  | Err e => ret (Some e)
  | Ok a =>
      let! a := json_scan a in
      if bool_decide (0 < length (json_missing a)) then
        do! Printf (missing_report (WorkingPath c) (json_missing a)) in
        ret None
      else
        let! r := equality a in
        match r with
        | Err e => ret (Some e)
        | Ok equal =>
            if negb equal then
              do! Printf (different_report (WorkingPath c) (MasterPath c)) in
              ret None
            else ret None
        end
  end.

(** [func ScanEnv(c Config) ([]string, error)] *)
Definition ScanEnv (c : Config) : M (list string * error) :=
  let! r := newEnvAnalyzer c in
  match r with
  | Err e => ret ([], Some e)
  | Ok a =>
      let! a := env_scan a in
      ret (env_missing a, None)
  end.

(** [func PrintEnv(c Config) error] *)
Definition PrintEnv (c : Config) : M error :=
  let! r := newEnvAnalyzer c in
  match r with
  | Err e => ret (Some e)
  | Ok a =>
      let! a := env_scan a in
      if bool_decide (0 < length (env_missing a)) then
        do! Printf (missing_report (WorkingPath c) (env_missing a)) in
        ret None
      else if bool_decide (0 < length (env_different a)) then
        do! Printf (different_report (WorkingPath c) (MasterPath c)) in
        do! Printf (slice_line (env_different a)) in
        ret None
      else ret None
  end.
End Operations.

(** ** The JSON format analyzer *)

Module Json.

(** One step of a key path: a mapping key or a sequence position. *)
Inductive seg : Type :=
  | Key (k : string)
  | Idx (i : nat).

Abbreviation path := (list seg) (only parsing).

(** The dotted/indexed spelling of a key path: keys are joined by a
    dot, a position is written between brackets after what it indexes. *)
Definition show_seg (first : bool) (s : seg) : string :=
  match s with
  | Key k => (if first then EmptyString else ".") +:+ k
  | Idx i => "[" +:+ pretty i +:+ "]"
  end.

Fixpoint show_rest (p : path) : string :=
  match p with
  | [] => EmptyString
  | s :: p' => show_seg false s +:+ show_rest p'
  end.

Definition show_path (p : path) : string :=
  match p with
  | [] => EmptyString
  | s :: p' => show_seg true s +:+ show_rest p'
  end.

Section Trees.
(** The values of JSON number literals; all that is used of them is
    that two of them can be compared. *)
Context {number : Type} `{!EqDecision number}.

(** Modelled from the spec: the KeyTree of the data model.  A node is a
    scalar (null, bool, number, string), an ordered sequence of nodes
    or a mapping from string keys to nodes.  A mapping has one node per
    key and keeps no order of its own; its entries are visited in the
    order of the finite map. *)
#[warnings="-register-all"] Inductive json : Type :=
  | JNull
  | JBool (b : bool)
  | JNumber (n : number)
  | JString (s : string)
  | JArray (l : list json)
  | JObject (m : gmap string json).

(** The node one step below [t], if there is one: mapping lookup by
    key, sequence lookup by position. *)
Definition child (s : seg) (t : json) : option json :=
  match s, t with
  | Key k, JObject m => m !! k
  | Idx i, JArray l => l !! i
  | _, _ => None
  end.



(** Scalars: the nodes that are neither sequences nor mappings. *)
Definition is_scalar (t : json) : bool :=
  match t with
  | JArray _ | JObject _ => false
  | _ => true
  end.

(** Modelled from the spec: the presence rule of the scan of section
    4.4, for one child of a master node and the walk [rec] of the nodes
    below it: the child's own path when the working node has no such
    child (and no descent), the walk of the child otherwise. *)
Definition scan_child (rec : path → json → list path)
    (here : path) (w : json) (s : seg) : list path :=
  match child s w with
  | None => [here ++ [s]]
  | Some w' => rec (here ++ [s]) w'
  end.

(** Modelled from the spec: the missing-key scan of section 4.4, a
    depth-first walk of the master tree [m] against the working node
    [w] at the same path [here].  Scalars report nothing. *)
Fixpoint scan_tree (here : path) (m w : json) {struct m} : list path :=
  match m with
  | JObject kids =>
      map_fold (λ k v acc,
        scan_child (λ p w', scan_tree p v w') here w (Key k) ++ acc) [] kids
  | JArray kids =>
      (fix walk (i : nat) (l : list json) : list path :=
         match l with
         | [] => []
         | v :: l' =>
             scan_child (λ p w', scan_tree p v w') here w (Idx i) ++
             walk (S i) l'
         end) 0 kids
  | _ => []
  end.

(** Modelled from the spec: JSON [equal] of section 4.5.  Mappings:
    same key set and equal values under every key; sequences: same
    length and equal elements position by position; scalars: same
    kind and same value. *)
Fixpoint equal (a b : json) {struct a} : bool :=
  match a, b with
  | JNull, JNull => true
  | JBool x, JBool y => bool_decide (x = y)
  | JNumber x, JNumber y => bool_decide (x = y)
  | JString x, JString y => bool_decide (x = y)
  | JArray xs, JArray ys =>
      (fix all2 (xs ys : list json) : bool :=
         match xs, ys with
         | [], [] => true
         | x :: xs', y :: ys' => equal x y && all2 xs' ys'
         | _, _ => false
         end) xs ys
  | JObject m1, JObject m2 =>
      bool_decide (dom m1 = dom m2) &&
      map_fold (λ k v acc,
        match m2 !! k with
        | Some v' => equal v v'
        | None => false
        end && acc) true m1
  | _, _ => false
  end.

(** The number of nodes of a tree. *)
Fixpoint json_size (t : json) : nat :=
  match t with
  | JArray l => S (foldr (λ x acc, json_size x + acc) 0 l)
  | JObject m => S (map_fold (λ _ x acc, json_size x + acc) 0 m)
  | _ => 1
  end.

(** [encoding/json] turning bytes into a tree, or failing. *)
Variable parseJSON : bytes → result json.

(** Modelled from the spec: the json analyzer of json.go, the base
    analyzer with the two parsed documents. *)
Record jsonAnalyzer : Type := {
  base : analyzer;
  workingTree : json;
  masterTree : json
}.

(** Modelled from the spec: [newJsonAnalyzer] builds the base analyzer
    (source loader) and parses both buffers; a failure of either step
    is returned as the error. *)
Definition newJsonAnalyzer (c : Config) : M (result jsonAnalyzer) :=
  let! r := newAnalyzer c in
  match r with
  | Err e => ret (Err e)
  | Ok a =>
      match parseJSON (working a) with
      | Err e => ret (Err e)
      | Ok wt =>
          match parseJSON (master a) with
          | Err e => ret (Err e)
          | Ok mt => ret (Ok {| base := a; workingTree := wt; masterTree := mt |})
          end
      end
  end.

(** Modelled from the spec: [scan] records the missing key paths. *)
Definition scan (ja : jsonAnalyzer) : jsonAnalyzer :=
  {| base := set_missing (base ja)
               (show_path <$> scan_tree [] (masterTree ja) (workingTree ja));
     workingTree := workingTree ja;
     masterTree := masterTree ja |}.

(** Modelled from the spec: [equality] is the deep-equality verdict on
    the two parsed documents. *)
Definition equality (ja : jsonAnalyzer) : result bool :=
  Ok (equal (workingTree ja) (masterTree ja)).

(** The operations of analyzer.go over this analyzer. *)
Definition ScanJson : Config → M (list string * error) :=
  ScanJson newJsonAnalyzer (λ ja, ret (scan ja)) (λ ja, missing (base ja)).

Definition PrintJson : Config → M error :=
  PrintJson newJsonAnalyzer (λ ja, ret (scan ja)) (λ ja, missing (base ja))
    (λ ja, ret (equality ja)).
End Trees.

Arguments json number : clear implicits.
Arguments jsonAnalyzer number : clear implicits.
End Json.

(** ** The Env format analyzer *)

Module Env.

(** White space, as trimmed around keys and values. *)
Definition is_space (c : ascii) : bool :=
  bool_decide (c = " "%char) || bool_decide (c = "009"%char) ||
  bool_decide (c = "010"%char) || bool_decide (c = "011"%char) ||
  bool_decide (c = "012"%char) || bool_decide (c = "013"%char).

(** [s] without its leading white space. *)
Fixpoint trim_left (s : string) : string :=
  match s with
  | String c s' => if is_space c then trim_left s' else s
  | EmptyString => EmptyString
  end.

(** [s] without its trailing white space. *)
Fixpoint trim_right (s : string) : string :=
  match s with
  | EmptyString => EmptyString
  | String c s' =>
      match trim_right s' with
      | EmptyString => if is_space c then EmptyString else String c EmptyString
      | r => String c r
      end
  end.

Definition trim (s : string) : string := trim_right (trim_left s).

(** The lines of a byte stream: the pieces between line feeds. *)
Fixpoint split_lines (s : string) : list string :=
  match s with
  | EmptyString => [EmptyString]
  | String c s' =>
      if bool_decide (c = "010"%char) then EmptyString :: split_lines s'
      else
        match split_lines s' with
        | l :: ls => String c l :: ls
        | [] => [String c EmptyString]
        end
  end.

(** A line cut at its first [=]: what is before it, what is after it. *)
Fixpoint cut_equals (l : string) : option (string * string) :=
  match l with
  | EmptyString => None
  | String c l' =>
      if bool_decide (c = "="%char) then Some (EmptyString, l')
      else
        match cut_equals l' with
        | Some (k, v) => Some (String c k, v)
        | None => None
        end
  end.

(** Modelled from the spec: one line of an env file, as section 4.2
    reads it: [None] for a line that is skipped (a comment, which starts
    with [#]; a line with no [=], which includes the blank line), the
    trimmed key and value otherwise. *)
Definition parse_line (l : string) : option (string * string) :=
  match l with
  | String "#"%char _ => None
  | _ =>
      match cut_equals l with
      | Some (k, v) => Some (trim k, trim v)
      | None => None
      end
  end.

(** [c] occurs in [s]. *)
Fixpoint contains (c : ascii) (s : string) : bool :=
  match s with
  | EmptyString => false
  | String c' s' => bool_decide (c' = c) || contains c s'
  end.

(** The lines the extractor passes over: the blank line, a comment, a
    line with no [=]. *)
Definition skipped (l : string) : Prop :=
  l = EmptyString ∨ (∃ r, l = String "#"%char r) ∨ contains "="%char l = false.

(** The KeySet after one more line: a later occurrence of a key
    replaces the earlier one. *)
Definition add_line (m : gmap string string) (l : string) : gmap string string :=
  match parse_line l with
  | Some (k, v) => <[k := v]> m
  | None => m
  end.

(** Modelled from the spec: [parseEnv] of section 4.2.  The KeySet is a
    finite map; lines are taken in order, so the last occurrence of a
    key wins. *)
Definition parseEnv (b : bytes) : gmap string string :=
  foldl add_line ∅ (split_lines b).

(** What one entry of the master KeySet adds to the missing list: its
    key when the working KeySet lacks it. *)
Definition missing_key (w : gmap string string) (kv : string * string) : option string :=
  match w !! kv.1 with
  | None => Some kv.1
  | Some _ => None
  end.

(** Modelled from the spec: Env scan of section 4.4 (env.go is not in
    src).  For every key of the master KeySet, in its iteration order: a
    key that the working KeySet lacks is appended to the missing list. *)
Definition scan_keys (w m : gmap string string) : list string :=
  omap (missing_key w) (map_to_list m).

(** What one entry of the master KeySet adds to the differences: its
    key when the working KeySet holds it with another string. *)
Definition differing_key (w : gmap string string) (kv : string * string) : option string :=
  match w !! kv.1 with
  | Some v' => if bool_decide (v' = kv.2) then None else Some kv.1
  | None => None
  end.

(** Modelled from the spec: Env diff of section 4.5 (env.go is not in
    src).  For every key present in both KeySets: when the two values
    are not the same string, the key is appended to the differences. *)
Definition diff (w m : gmap string string) : list string :=
  omap (differing_key w) (map_to_list m).

(** Modelled from the spec: the env analyzer of env.go is the base
    analyzer; parsing cannot fail. *)
Record envAnalyzer : Type := { base : analyzer }.

(** Modelled from the spec: [newEnvAnalyzer] builds the base analyzer
    (source loader); its failure is returned as the error. *)
Definition newEnvAnalyzer (c : Config) : M (result envAnalyzer) :=
  let! r := newAnalyzer c in
  match r with
  | Err e => ret (Err e)
  | Ok a => ret (Ok {| base := a |})
  end.

(** Modelled from the spec: [scan] parses both buffers and records the
    missing keys and the differing keys ([PrintEnv] reads the latter
    from the analyzer once the former are none). *)
Definition scan (ea : envAnalyzer) : envAnalyzer :=
  let w := parseEnv (working (base ea)) in
  let m := parseEnv (master (base ea)) in
  {| base := set_different (set_missing (base ea) (scan_keys w m)) (diff w m) |}.

(** The operations of analyzer.go over this analyzer. *)
Definition ScanEnv : Config → M (list string * error) :=
  ScanEnv newEnvAnalyzer (λ ea, ret (scan ea)) (λ ea, missing (base ea)).

Definition PrintEnv : Config → M error :=
  PrintEnv newEnvAnalyzer (λ ea, ret (scan ea)) (λ ea, missing (base ea))
    (λ ea, different (base ea)).
End Env.

(** ** Reading the loader's behaviour off a configuration *)

(** The events of the connection step: none without a host alias. *)
Definition connect_events (c : Config) : list event :=
  if bool_decide (HostAlias c = EmptyString) then [] else [EvSsh (HostAlias c)].

(** Where the master bytes are asked for, and the event of asking. *)
Definition fetch_master (c : Config) (w : World) : result bytes :=
  if bool_decide (HostAlias c = EmptyString) then readFile w (MasterPath c)
  else scp_fetch w (HostAlias c) (MasterPath c).

Definition master_event (c : Config) : event :=
  if bool_decide (HostAlias c = EmptyString) then EvReadFile (MasterPath c)
  else EvScp (HostAlias c) (MasterPath c).

(** The analyzer [newAnalyzer] hands back after a full load. *)
Definition loaded (c : Config) (wb mb : bytes) : analyzer :=
  {| working := wb; master := mb;
     bash_ := if bool_decide (HostAlias c = EmptyString) then None
              else Some (newBash (HostAlias c));
     missing := []; different := [] |}.

(** [needle] occurs in [s]. *)
Definition embeds (needle s : string) : Prop :=
  ∃ pre post, s = pre +:+ needle +:+ post.

(** Two worlds that differ at most in what [ssh] answers. *)
Definition same_files (w1 w2 : World) : Prop :=
  readFile w1 = readFile w2 ∧ scp_fetch w1 = scp_fetch w2.

(** A failed read of one of the two paths: which path, the transport's
    message, and the reads made up to and including the failing one. *)
Inductive read_failure (c : Config) (w : World) : string → string → list event → Prop :=
  | working_unreadable (e : string) :
      readFile w (WorkingPath c) = Err e →
      read_failure c w (WorkingPath c) e [EvReadFile (WorkingPath c)]
  | master_unreadable (wb : bytes) (e : string) :
      readFile w (WorkingPath c) = Ok wb →
      fetch_master c w = Err e →
      read_failure c w (MasterPath c) e [EvReadFile (WorkingPath c); master_event c].

(** The lines written to standard output, oldest first. *)
Definition printed (t : list event) : list string :=
  omap (λ e, match e with EvPrint s => Some s | _ => None end) t.

(** A computation that writes nothing to standard output. *)
Definition silent {A : Type} (c : M A) : Prop :=
  ∀ w t, printed (c w t).2 = printed t.

(** The events of the remote transport. *)
Definition is_remote (e : event) : bool :=
  match e with
  | EvSsh _ | EvScp _ _ => true
  | _ => false
  end.

(** ** Concrete configurations and worlds *)

Module Sample.
Import Json.

(** [{"a":1,"b":{"c":2}}] and [{"a":1}] as trees. *)
Definition master_tree : json Z :=
  JObject (<["a" := JNumber 1%Z]> (<["b" := JObject {["c" := JNumber 2%Z]}]> ∅)).

Definition working_tree : json Z := JObject {["a" := JNumber 1%Z]}.

(** [{"a":2}] *)
Definition changed_tree : json Z := JObject {["a" := JNumber 2%Z]}.

Definition master_text : string :=
  "{" +:+ dquote +:+ "a" +:+ dquote +:+ ":1," +:+ dquote +:+ "b" +:+ dquote +:+
  ":{" +:+ dquote +:+ "c" +:+ dquote +:+ ":2}}".

Definition working_text : string :=
  "{" +:+ dquote +:+ "a" +:+ dquote +:+ ":1}".

Definition changed_text : string :=
  "{" +:+ dquote +:+ "a" +:+ dquote +:+ ":2}".

(** A decoder that knows the three documents above and rejects
    everything else. *)
Definition decode (b : bytes) : result (json Z) :=
  if bool_decide (b = master_text) then Ok master_tree
  else if bool_decide (b = working_text) then Ok working_tree
  else if bool_decide (b = changed_text) then Ok changed_tree
  else Err "invalid character looking for beginning of value".

Definition master_env : string := "FOO=1" +:+ newline +:+ "BAR=2".
Definition working_env : string := "FOO=1".
Definition changed_env : string := "FOO=1" +:+ newline +:+ "BAR=3".

(** The files of a machine. *)
Definition disk (path : string) : result bytes :=
  if bool_decide (path = "app.json") then Ok working_text
  else if bool_decide (path = "app.example.json") then Ok master_text
  else if bool_decide (path = "app.changed.json") then Ok changed_text
  else if bool_decide (path = "app.env") then Ok working_env
  else if bool_decide (path = "app.example.env") then Ok master_env
  else if bool_decide (path = "app.changed.env") then Ok changed_env
  else Err ("open " +:+ path +:+ ": no such file or directory").

(** Everything local; no host answers. *)
Definition local_world : World :=
  {| readFile := disk;
     ssh_session := λ _, Some "exit status 255";
     scp_fetch := λ _ _, Err "exit status 1" |}.

(** The host cannot be reached: neither [ssh] nor [scp] gets through. *)
Definition unreachable_world : World := local_world.

(** The session test fails, the copy that follows gets through. *)
Definition flaky_world : World :=
  {| readFile := disk;
     ssh_session := λ _, Some "exit status 255";
     scp_fetch := λ _ path,
       if bool_decide (path = "/etc/app.json") then Ok master_text
       else if bool_decide (path = "/etc/app.env") then Ok master_env
       else Err "exit status 1" |}.

(** The host answers both commands. *)
Definition remote_world : World :=
  {| readFile := disk;
     ssh_session := λ _, None;
     scp_fetch := scp_fetch flaky_world |}.

Definition remote_json : Config :=
  {| HostAlias := "prod"; WorkingPath := "app.json"; MasterPath := "/etc/app.json" |}.

Definition remote_env : Config :=
  {| HostAlias := "prod"; WorkingPath := "app.env"; MasterPath := "/etc/app.env" |}.

Definition remote_no_working : Config :=
  {| HostAlias := "prod"; WorkingPath := "nowhere.json"; MasterPath := "/etc/app.json" |}.

Definition local_json : Config :=
  {| HostAlias := EmptyString; WorkingPath := "app.json"; MasterPath := "app.example.json" |}.

Definition local_json_equal : Config :=
  {| HostAlias := EmptyString; WorkingPath := "app.json"; MasterPath := "app.json" |}.

Definition local_json_changed : Config :=
  {| HostAlias := EmptyString; WorkingPath := "app.changed.json"; MasterPath := "app.json" |}.

Definition local_env : Config :=
  {| HostAlias := EmptyString; WorkingPath := "app.env"; MasterPath := "app.example.env" |}.

Definition local_env_changed : Config :=
  {| HostAlias := EmptyString; WorkingPath := "app.changed.env"; MasterPath := "app.example.env" |}.

Definition local_no_master : Config :=
  {| HostAlias := EmptyString; WorkingPath := "app.json"; MasterPath := "gone.json" |}.
End Sample.

(** A working env file whose [FOO] has drifted from the master's and
    which lacks the master's [BAR]. *)
Module Drift.
Definition working_env : string := "FOO=2".

Definition disk (path : string) : result bytes :=
  if bool_decide (path = "app.env") then Ok working_env
  else if bool_decide (path = "app.example.env") then Ok Sample.master_env
  else Err ("open " +:+ path +:+ ": no such file or directory").


End Drift.

(** * Properties *)

(** ** The source loader *)

Lemma host_alias_test (h : string) :
  bool_decide (0 < String.length h) = negb (bool_decide (h = EmptyString)).
Proof.
  destruct h as [|c h]; cbn [String.length];
    repeat case_bool_decide; simpl; (done || lia).
Qed.

(** [connect] installs the session handle, asks [ssh] once and reports no
    error, whatever [ssh] answered. *)
Lemma connect_run (a : analyzer) (h : string) (w : World) (t : list event) :
  connect a h w t = ((set_bash a (newBash h), None), t ++ [EvSsh h]).
Proof.
  unfold connect, bind, ssh, emit, ask, ret; simpl.
  destruct (ssh_session w h); reflexivity.
Qed.

(** The whole of [newAnalyzer], by cases on the two reads. *)
Lemma newAnalyzer_run (c : Config) (w : World) (t : list event) :
  newAnalyzer c w t =
    match readFile w (WorkingPath c) with
    | Err e =>
        (Err (open_error (WorkingPath c) e),
         t ++ connect_events c ++ [EvReadFile (WorkingPath c)])
    | Ok wb =>
        match fetch_master c w with
        | Err e =>
            (Err (open_error (MasterPath c) e),
             t ++ connect_events c ++ [EvReadFile (WorkingPath c); master_event c])
        | Ok mb =>
            (Ok (loaded c wb mb),
             t ++ connect_events c ++ [EvReadFile (WorkingPath c); master_event c])
        end
    end.
Proof.
  unfold newAnalyzer, fetch_master, master_event, connect_events, loaded.
  rewrite host_alias_test.
  unfold bind at 1.
  destruct (bool_decide (HostAlias c = EmptyString)); simpl.
  - unfold ret at 1, bind, read, bind, ReadFile, bind, emit, ask, ret; simpl.
    destruct (readFile w (WorkingPath c)) as [wb|e]; simpl; [|reflexivity].
    rewrite <- app_assoc; simpl.
    destruct (readFile w (MasterPath c)); reflexivity.
  - rewrite connect_run.
    unfold bind, read, bind, ReadFile, scp, bind, emit, ask, ret; simpl.
    rewrite <- !app_assoc; simpl.
    destruct (readFile w (WorkingPath c)) as [wb|e]; simpl; [|reflexivity].
    rewrite <- app_assoc; simpl.
    destruct (scp_fetch w (HostAlias c) (MasterPath c)); reflexivity.
Qed.

Lemma open_error_embeds (path e : string) : embeds path (open_error path e).
Proof. exists "could not open ", (". " +:+ e). reflexivity. Qed.

Lemma newAnalyzer_read_failure (c : Config) (w : World) (t : list event)
    (path e : string) (reads : list event) :
  read_failure c w path e reads →
  newAnalyzer c w t = (Err (open_error path e), t ++ connect_events c ++ reads).
Proof.
  intros [e' Hw | wb e' Hw Hm]; rewrite newAnalyzer_run, Hw; [reflexivity|].
  rewrite Hm. reflexivity.
Qed.

(** C4.  The source loader's routing.  With an empty host alias both
    files are read from local disk, the working file first.  With a host
    alias the working file is still read from local disk and the master
    bytes are those that [scp] returns for [MasterPath] on that host; the
    local disk is not asked for the master. *)
Theorem loader_routing (c : Config) (w : World) (t : list event) :
  newAnalyzer c w t =
    if bool_decide (HostAlias c = EmptyString) then
      match readFile w (WorkingPath c) with
      | Err e =>
          (Err (open_error (WorkingPath c) e), t ++ [EvReadFile (WorkingPath c)])
      | Ok wb =>
          match readFile w (MasterPath c) with
          | Err e =>
              (Err (open_error (MasterPath c) e),
               t ++ [EvReadFile (WorkingPath c); EvReadFile (MasterPath c)])
          | Ok mb =>
              (Ok {| working := wb; master := mb; bash_ := None;
                     missing := []; different := [] |},
               t ++ [EvReadFile (WorkingPath c); EvReadFile (MasterPath c)])
          end
      end
    else
      match readFile w (WorkingPath c) with
      | Err e =>
          (Err (open_error (WorkingPath c) e),
           t ++ [EvSsh (HostAlias c); EvReadFile (WorkingPath c)])
      | Ok wb =>
          match scp_fetch w (HostAlias c) (MasterPath c) with
          | Err e =>
              (Err (open_error (MasterPath c) e),
               t ++ [EvSsh (HostAlias c); EvReadFile (WorkingPath c);
                     EvScp (HostAlias c) (MasterPath c)])
          | Ok mb =>
              (Ok {| working := wb; master := mb;
                     bash_ := Some (newBash (HostAlias c));
                     missing := []; different := [] |},
               t ++ [EvSsh (HostAlias c); EvReadFile (WorkingPath c);
                     EvScp (HostAlias c) (MasterPath c)])
          end
      end.
Proof.
  rewrite newAnalyzer_run.
  unfold fetch_master, master_event, connect_events, loaded.
  case_bool_decide; reflexivity.
Qed.

(** C2, as amended.  [connect] returns nil for every host alias, whatever
    [ssh] answered.  So with a host alias the outcome of [newAnalyzer] is
    the same in any world with the same files, it is never the connection
    error, and the run goes on to read the working file; the [scp] fetch
    of the master follows when that read succeeded. *)
Theorem connect_error_discarded (a : analyzer) (h : string) (c : Config)
    (w : World) (t : list event) :
  HostAlias c ≠ EmptyString →
  (connect a h w t).1.2 = None ∧
  (∀ w', same_files w w' → newAnalyzer c w' t = newAnalyzer c w t) ∧
  (∀ e, (newAnalyzer c w t).1 ≠ Err (connect_error (HostAlias c) e)) ∧
  (newAnalyzer c w t).2 =
    t ++ [EvSsh (HostAlias c); EvReadFile (WorkingPath c)] ++
    match readFile w (WorkingPath c) with
    | Ok _ => [EvScp (HostAlias c) (MasterPath c)]
    | Err _ => []
    end.
Proof.
  intros Hh. split; [rewrite connect_run; reflexivity|].
  split; [|split].
  - intros w' [Hr Hs]. rewrite !newAnalyzer_run.
    unfold fetch_master. rewrite Hr, Hs. reflexivity.
  - intros e. rewrite newAnalyzer_run.
    destruct (readFile w (WorkingPath c)); simpl;
      [destruct (fetch_master c w); simpl|]; discriminate.
  - rewrite newAnalyzer_run.
    unfold fetch_master, master_event, connect_events.
    rewrite bool_decide_eq_false_2 by exact Hh.
    destruct (readFile w (WorkingPath c)); simpl;
      [destruct (scp_fetch w (HostAlias c) (MasterPath c)); reflexivity|].
    reflexivity.
Qed.

Lemma connect_error_discarded_witness :
  HostAlias Sample.remote_json ≠ EmptyString ∧
  (newAnalyzer Sample.remote_json Sample.unreachable_world []).2 =
    [EvSsh "prod"; EvReadFile "app.json"; EvScp "prod" "/etc/app.json"].
Proof.
  split; [discriminate|].
  exact (proj2 (proj2 (proj2
    (connect_error_discarded analyzer_zero "prod" Sample.remote_json
       Sample.unreachable_world [] ltac:(discriminate))))).
Defined.

(** C2 as stated fails: the host cannot be reached and the working file
    cannot be read; [newAnalyzer] stops at that read and makes no [scp]
    attempt. *)
Lemma scp_not_always_attempted :
  ssh_session Sample.unreachable_world (HostAlias Sample.remote_no_working) ≠ None ∧
  (newAnalyzer Sample.remote_no_working Sample.unreachable_world []).2 =
    [EvSsh "prod"; EvReadFile "nowhere.json"] ∧
  EvScp (HostAlias Sample.remote_no_working) (MasterPath Sample.remote_no_working)
    ∉ (newAnalyzer Sample.remote_no_working Sample.unreachable_world []).2.
Proof.
  split; [discriminate|]. split; [reflexivity|].
  intros H. vm_compute in H.
  repeat (apply elem_of_cons in H as [H|H]; [discriminate H|]).
  by apply elem_of_nil in H.
Qed.

(** ** The public operations *)

Lemma newJsonAnalyzer_load_error {number : Type}
    (parseJSON : bytes → result (Json.json number))
    (c : Config) (w : World) (t t' : list event) (e : string) :
  newAnalyzer c w t = (Err e, t') →
  Json.newJsonAnalyzer parseJSON c w t = (Err e, t').
Proof. intros H. unfold Json.newJsonAnalyzer, bind. rewrite H. reflexivity. Qed.

Lemma newEnvAnalyzer_load_error (c : Config) (w : World) (t t' : list event)
    (e : string) :
  newAnalyzer c w t = (Err e, t') →
  Env.newEnvAnalyzer c w t = (Err e, t').
Proof. intros H. unfold Env.newEnvAnalyzer, bind. rewrite H. reflexivity. Qed.

(** Whatever the format analyzer, a scan that returns an error returns
    the nil slice with it. *)
Lemma ScanJson_error_nil {J : Type} (newJ : Config → M (result J))
    (jscan : J → M J) (jmissing : J → list string)
    (c : Config) (w : World) (t t' : list event) (ms : list string) (e : string) :
  ScanJson newJ jscan jmissing c w t = ((ms, Some e), t') → ms = [].
Proof.
  unfold ScanJson, bind, ret.
  destruct (newJ c w t) as [[a|e'] t1]; [destruct (jscan a w t1)|]; congruence.
Qed.

Lemma ScanEnv_error_nil {E : Type} (newE : Config → M (result E))
    (escan : E → M E) (emissing : E → list string)
    (c : Config) (w : World) (t t' : list event) (ms : list string) (e : string) :
  ScanEnv newE escan emissing c w t = ((ms, Some e), t') → ms = [].
Proof.
  unfold ScanEnv, bind, ret.
  destruct (newE c w t) as [[a|e'] t1]; [destruct (escan a w t1)|]; congruence.
Qed.

(** C5.  When the read of the working path or of the master path fails,
    [ScanJson] and [ScanEnv] stop at that read (nothing is read, fetched
    or printed after it) and return the nil slice with an error whose
    message embeds the path that failed.  And no run of either returns a
    non-empty list together with an error. *)
Theorem read_failure_aborts {number : Type}
    (parseJSON : bytes → result (Json.json number))
    (c : Config) (w : World) (t : list event)
    (path e : string) (reads : list event) :
  read_failure c w path e reads →
  Json.ScanJson parseJSON c w t =
    (([], Some (open_error path e)), t ++ connect_events c ++ reads) ∧
  Env.ScanEnv c w t =
    (([], Some (open_error path e)), t ++ connect_events c ++ reads) ∧
  embeds path (open_error path e) ∧
  (∀ c' w' t0 t' ms err,
     Json.ScanJson parseJSON c' w' t0 = ((ms, Some err), t') → ms = []) ∧
  (∀ c' w' t0 t' ms err,
     Env.ScanEnv c' w' t0 = ((ms, Some err), t') → ms = []).
Proof.
  intros Hf. pose proof (newAnalyzer_read_failure c w t path e reads Hf) as Hn.
  repeat split.
  - unfold Json.ScanJson, ScanJson, bind.
    rewrite (newJsonAnalyzer_load_error parseJSON _ _ _ _ _ Hn). reflexivity.
  - unfold Env.ScanEnv, ScanEnv, bind.
    rewrite (newEnvAnalyzer_load_error _ _ _ _ _ Hn). reflexivity.
  - apply open_error_embeds.
  - intros c' w' t0 t' ms err. apply ScanJson_error_nil.
  - intros c' w' t0 t' ms err. apply ScanEnv_error_nil.
Qed.

Lemma read_failure_aborts_witness :
  read_failure Sample.local_no_master Sample.local_world "gone.json"
    "open gone.json: no such file or directory"
    [EvReadFile "app.json"; EvReadFile "gone.json"] ∧
  Json.ScanJson Sample.decode Sample.local_no_master Sample.local_world [] =
    (([], Some "could not open gone.json. open gone.json: no such file or directory"),
     [EvReadFile "app.json"; EvReadFile "gone.json"]).
Proof.
  assert (Hf : read_failure Sample.local_no_master Sample.local_world "gone.json"
                 "open gone.json: no such file or directory"
                 [EvReadFile "app.json"; EvReadFile "gone.json"]).
  { exact (master_unreadable Sample.local_no_master Sample.local_world
             Sample.working_text "open gone.json: no such file or directory"
             eq_refl eq_refl). }
  split; [exact Hf|].
  exact (proj1 (read_failure_aborts Sample.decode Sample.local_no_master
                  Sample.local_world [] _ _ _ Hf)).
Defined.

(** C1 fails on the code.  The host cannot be reached, yet [ScanJson] and
    [ScanEnv] go on to read the working file and to try the copy, and the
    error they return is the failed copy's, not a connection error.  When
    the copy does get through after the failed session test, they return
    the missing keys with a nil error. *)
Theorem unreachable_host_not_reported :
  ssh_session Sample.unreachable_world "prod" = Some "exit status 255" ∧
  Json.ScanJson Sample.decode Sample.remote_json Sample.unreachable_world [] =
    (([], Some "could not open /etc/app.json. exit status 1"),
     [EvSsh "prod"; EvReadFile "app.json"; EvScp "prod" "/etc/app.json"]) ∧
  Env.ScanEnv Sample.remote_env Sample.unreachable_world [] =
    (([], Some "could not open /etc/app.env. exit status 1"),
     [EvSsh "prod"; EvReadFile "app.env"; EvScp "prod" "/etc/app.env"]) ∧
  ssh_session Sample.flaky_world "prod" = Some "exit status 255" ∧
  Json.ScanJson Sample.decode Sample.remote_json Sample.flaky_world [] =
    ((["b"], None),
     [EvSsh "prod"; EvReadFile "app.json"; EvScp "prod" "/etc/app.json"]) ∧
  Env.ScanEnv Sample.remote_env Sample.flaky_world [] =
    ((["BAR"], None),
     [EvSsh "prod"; EvReadFile "app.env"; EvScp "prod" "/etc/app.env"]).
Proof. repeat split; vm_compute; reflexivity. Qed.









(** C10.  A mismatch is never an error.  When the analyzer is built (and
    [equality] does not fail), [PrintJson] and [PrintEnv] return nil, with
    or without missing keys or differences.  An error of [PrintJson] is
    the constructor's or [equality]'s; an error of [PrintEnv] is the
    constructor's. *)
Theorem mismatch_is_not_an_error {J E : Type}
    (newJ : Config → M (result J)) (jscan : J → M J) (jmissing : J → list string)
    (equality : J → M (result bool))
    (newE : Config → M (result E)) (escan : E → M E)
    (emissing edifferent : E → list string)
    (c : Config) (w : World) (t : list event) :
  (∀ a t1 a' t2,
     newJ c w t = (Ok a, t1) → jscan a w t1 = (a', t2) →
     (∀ e, (equality a' w t2).1 ≠ Err e) →
     (PrintJson newJ jscan jmissing equality c w t).1 = None) ∧
  (∀ a t1,
     newE c w t = (Ok a, t1) →
     (PrintEnv newE escan emissing edifferent c w t).1 = None) ∧
  (∀ e,
     (PrintJson newJ jscan jmissing equality c w t).1 = Some e →
     (newJ c w t).1 = Err e ∨
     ∃ a t1 a' t2,
       newJ c w t = (Ok a, t1) ∧ jscan a w t1 = (a', t2) ∧
       jmissing a' = [] ∧ (equality a' w t2).1 = Err e) ∧
  (∀ e,
     (PrintEnv newE escan emissing edifferent c w t).1 = Some e →
     (newE c w t).1 = Err e).
Proof.
  repeat split.
  - intros a t1 a' t2 Hnew Hscan Heq.
    unfold PrintJson, bind. rewrite Hnew, Hscan.
    case_bool_decide; [reflexivity|].
    destruct (equality a' w t2) as [[[|]|e] t3]; try reflexivity.
    exfalso. exact (Heq e eq_refl).
  - intros a t1 Hnew. unfold PrintEnv, bind. rewrite Hnew.
    destruct (escan a w t1) as [a' t2].
    repeat case_bool_decide; reflexivity.
  - intros e. unfold PrintJson, bind.
    destruct (newJ c w t) as [[a|e'] t1] eqn:Hnew; simpl; [|left; congruence].
    destruct (jscan a w t1) as [a' t2] eqn:Hscan.
    case_bool_decide as Hm; [discriminate|].
    destruct (equality a' w t2) as [[[|]|e'] t3] eqn:Heq; simpl; try discriminate.
    intros [= ->]. right. exists a, t1, a', t2. rewrite Heq.
    split; [reflexivity|]. split; [exact Hscan|]. split; [|reflexivity].
    destruct (jmissing a'); [reflexivity|]. simpl in Hm. lia.
  - intros e. unfold PrintEnv, bind.
    destruct (newE c w t) as [[a|e'] t1]; simpl; [|congruence].
    destruct (escan a w t1) as [a' t2].
    repeat case_bool_decide; discriminate.
Qed.



Lemma mismatch_is_not_an_error_witness :
  (Json.PrintJson Sample.decode Sample.local_json_changed Sample.local_world []).1 = None ∧
  (Env.PrintEnv Sample.local_env Sample.local_world []).1 = None.
Proof.
  pose proof (mismatch_is_not_an_error
    (Json.newJsonAnalyzer Sample.decode) (λ ja, ret (Json.scan ja))
    (λ ja, missing (Json.base ja)) (λ ja, ret (Json.equality ja))
    Env.newEnvAnalyzer (λ ea, ret (Env.scan ea)) (λ ea, missing (Env.base ea))
    (λ ea, different (Env.base ea))
    Sample.local_json_changed Sample.local_world []) as [HJ _].
  pose proof (mismatch_is_not_an_error
    (Json.newJsonAnalyzer Sample.decode) (λ ja, ret (Json.scan ja))
    (λ ja, missing (Json.base ja)) (λ ja, ret (Json.equality ja))
    Env.newEnvAnalyzer (λ ea, ret (Env.scan ea)) (λ ea, missing (Env.base ea))
    (λ ea, different (Env.base ea))
    Sample.local_env Sample.local_world []) as [_ [HE _]].
  split.
  - refine (HJ _ _ _ _ eq_refl eq_refl _). intros e. discriminate.
  - exact (HE _ _ eq_refl).
Defined.

(** ** The JSON analyzer *)


(** A conjunction collected over the entries of a map holds when every
    entry's test does. *)
Lemma map_fold_andb_true {A : Type} (f : string → A → bool) (m : gmap string A) :
  map_fold (λ k v acc, f k v && acc) true m = true ↔
  ∀ k v, m !! k = Some v → f k v = true.
Proof.
  rewrite map_fold_foldr.
  transitivity (∀ kv, kv ∈ map_to_list m → f kv.1 kv.2 = true).
  - induction (map_to_list m) as [|[k v] l IH]; simpl.
    + split; [|done]. intros _ kv H. by apply elem_of_nil in H.
    + rewrite andb_true_iff, IH. split.
      * intros [H1 H2] kv [->|H]%elem_of_cons; [exact H1|by apply H2].
      * intros H. split; [apply (H (k, v)); left|].
        intros kv Hkv. apply H. by right.
  - split.
    + intros H k v Hk. apply (H (k, v)). by apply elem_of_map_to_list.
    + intros H [k v] Hk. apply H. by apply elem_of_map_to_list.
Qed.

Lemma map_fold_add_ge {A : Type} (f : A → nat) (m : gmap string A) (k : string) (v : A) :
  m !! k = Some v → f v ≤ map_fold (λ _ x acc, f x + acc) 0 m.
Proof.
  rewrite map_fold_foldr. intros H%elem_of_map_to_list.
  induction (map_to_list m) as [|[k' v'] l IH]; simpl.
  - by apply elem_of_nil in H.
  - apply elem_of_cons in H as [[= <- <-]|H]; [lia|].
    specialize (IH H). lia.
Qed.

Section JsonFacts.
Context {number : Type}.
Import Json.
Implicit Types (t m w : json number) (p q : list seg).

Lemma json_size_field (kids : gmap string (json number)) k v :
  kids !! k = Some v → json_size v < json_size (JObject kids).
Proof.
  intros H. simpl.
  pose proof (map_fold_add_ge json_size kids k v H). lia.
Qed.

Lemma json_size_item (l : list (json number)) v :
  v ∈ l → json_size v < json_size (JArray l).
Proof.
  intros H. simpl. induction H as [x l|x y l H IH]; simpl; lia.
Qed.

(** Induction on trees: a property of the children gives the property
    of the node. *)
Lemma json_ind' (P : json number → Prop) :
  P JNull → (∀ b, P (JBool b)) → (∀ n, P (JNumber n)) → (∀ s, P (JString s)) →
  (∀ l, Forall P l → P (JArray l)) →
  (∀ kids, map_Forall (λ _, P) kids → P (JObject kids)) →
  ∀ t, P t.
Proof.
  intros Hnull Hbool Hnum Hstr Harr Hobj t.
  remember (json_size t) as n eqn:Hn.
  revert t Hn. induction (lt_wf n) as [n _ IH]. intros t ->.
  destruct t as [|b|x|s|l|kids]; auto.
  - apply Harr. apply Forall_forall. intros v Hv.
    exact (IH _ (json_size_item l v Hv) v eq_refl).
  - apply Hobj. intros k v Hk.
    exact (IH _ (json_size_field kids k v Hk) v eq_refl).
Qed.

(** *** Deep equality *)
Section Equal.
Context `{!EqDecision number}.

Lemma equal_array_nil_l (ys : list (json number)) :
  equal (JArray []) (JArray ys) = bool_decide (ys = []).
Proof. destruct ys; reflexivity. Qed.

Lemma equal_array_cons (x : json number) xs ys :
  equal (JArray (x :: xs)) (JArray ys) =
    match ys with
    | [] => false
    | y :: ys' => equal x y && equal (JArray xs) (JArray ys')
    end.
Proof. destruct ys; reflexivity. Qed.

Lemma equal_object (m1 m2 : gmap string (json number)) :
  equal (JObject m1) (JObject m2) = true ↔
  dom m1 = dom m2 ∧
  ∀ k v1 v2, m1 !! k = Some v1 → m2 !! k = Some v2 → equal v1 v2 = true.
Proof.
  cbn [equal]. rewrite andb_true_iff, bool_decide_eq_true.
  rewrite (map_fold_andb_true
    (λ k v, match m2 !! k with Some v' => equal v v' | None => false end)).
  split; intros [Hd H]; (split; [exact Hd|]).
  - intros k v1 v2 H1 H2. specialize (H k v1 H1). by rewrite H2 in H.
  - intros k v1 H1.
    assert (is_Some (m2 !! k)) as [v2 H2].
    { apply elem_of_dom. rewrite <- Hd. apply elem_of_dom. eauto. }
    rewrite H2. eauto.
Qed.

Lemma equal_array (l1 l2 : list (json number)) :
  equal (JArray l1) (JArray l2) = true ↔
  length l1 = length l2 ∧
  ∀ i x y, l1 !! i = Some x → l2 !! i = Some y → equal x y = true.
Proof.
  revert l2. induction l1 as [|x l1 IH]; intros l2.
  - rewrite equal_array_nil_l, bool_decide_eq_true. split.
    + intros ->. split; [reflexivity|]. intros i x y H. discriminate H.
    + intros [H _]. by destruct l2.
  - rewrite equal_array_cons. destruct l2 as [|y l2].
    + split; [discriminate|]. intros [H _]. discriminate H.
    + rewrite andb_true_iff, IH. split.
      * intros [Hxy [Hlen H]]. split; [simpl; congruence|].
        intros [|i] x' y' H1 H2; simpl in *; [congruence|eauto].
      * intros [Hlen H]. split; [exact (H 0 x y eq_refl eq_refl)|].
        split; [simpl in Hlen; congruence|].
        intros i x' y'. exact (H (S i) x' y').
Qed.

(** [equal] decides the identity of trees. *)
Lemma equal_eq (a b : json number) : equal a b = true ↔ a = b.
Proof.
  revert b. induction a as [|x|x|x|l IH|kids IH] using json_ind'; intros b.
  - destruct b; simpl; split; (discriminate || reflexivity).
  - destruct b; simpl; try (split; discriminate).
    rewrite bool_decide_eq_true. split; congruence.
  - destruct b; simpl; try (split; discriminate).
    rewrite bool_decide_eq_true. split; congruence.
  - destruct b; simpl; try (split; discriminate).
    rewrite bool_decide_eq_true. split; congruence.
  - destruct b as [| | | |l'|]; try (simpl; split; discriminate).
    rewrite equal_array. split.
    + intros [Hlen H]. f_equal. apply list_eq_same_length with (length l).
      * symmetry. exact Hlen.
      * reflexivity.
      * intros i x y _ H1 H2.
        apply (proj1 (Forall_lookup _ _) IH i x H1). eauto.
    + intros [= <-]. split; [reflexivity|].
      intros i x y H1 H2.
      apply (proj1 (Forall_lookup _ _) IH i x H1). congruence.
  - destruct b as [| | | | |kids']; try (simpl; split; discriminate).
    rewrite equal_object. split.
    + intros [Hd H]. f_equal. apply map_eq. intros k.
      destruct (kids !! k) as [v|] eqn:Hk.
      * assert (is_Some (kids' !! k)) as [v' Hk'].
        { apply elem_of_dom. rewrite <- Hd. apply elem_of_dom. eauto. }
        rewrite Hk'. f_equal. apply (IH k v Hk). eauto.
      * symmetry. apply not_elem_of_dom. rewrite <- Hd.
        by apply not_elem_of_dom.
    + intros [= <-]. split; [reflexivity|].
      intros k v1 v2 H1 H2. apply (IH k v1 H1). congruence.
Qed.
End Equal.

(** *** The missing-key scan *)







End JsonFacts.


Section JsonNoDup.
Context {number : Type}.
Import Json.
Implicit Types (t m w : json number) (p q : list seg).



End JsonNoDup.

(** ** The Env analyzer *)
Section EnvFacts.
Import Env.
Implicit Types (w m : gmap string string) (l s : string).

Lemma elem_of_scan_keys w m k :
  k ∈ scan_keys w m ↔ is_Some (m !! k) ∧ w !! k = None.
Proof.
  unfold scan_keys. rewrite list_elem_of_omap. split.
  - intros ([k' v] & Hin%elem_of_map_to_list & Hk).
    unfold missing_key in Hk. simpl in Hk.
    destruct (w !! k') eqn:Hw; [discriminate|]. injection Hk as <-. eauto.
  - intros [[v Hm] Hw]. exists (k, v).
    split; [by apply elem_of_map_to_list|].
    unfold missing_key. simpl. by rewrite Hw.
Qed.

Lemma elem_of_diff w m k :
  k ∈ diff w m ↔ ∃ v1 v2, w !! k = Some v1 ∧ m !! k = Some v2 ∧ v1 ≠ v2.
Proof.
  unfold diff. rewrite list_elem_of_omap. split.
  - intros ([k' v2] & Hin%elem_of_map_to_list & Hk).
    unfold differing_key in Hk. simpl in Hk.
    destruct (w !! k') as [v1|] eqn:Hw; [|discriminate].
    case_bool_decide; [discriminate|]. injection Hk as <-.
    by exists v1, v2.
  - intros (v1 & v2 & Hw & Hm & Hne). exists (k, v2).
    split; [by apply elem_of_map_to_list|].
    unfold differing_key. simpl. rewrite Hw.
    by rewrite bool_decide_eq_false_2.
Qed.

Lemma cut_equals_none l : contains "="%char l = false → cut_equals l = None.
Proof.
  induction l as [|c l IH]; simpl; [reflexivity|].
  case_bool_decide; simpl; [discriminate|].
  intros Hc. by rewrite (IH Hc).
Qed.

Lemma cut_equals_some l k v :
  cut_equals l = Some (k, v) → contains "="%char l = true.
Proof.
  revert k. induction l as [|c l IH]; intros k; simpl; [discriminate|].
  case_bool_decide; simpl; [done|].
  destruct (cut_equals l) as [[k' v']|]; [|discriminate].
  intros [= <- <-]. by apply (IH k').
Qed.

Lemma parse_line_skipped l : skipped l → parse_line l = None.
Proof.
  intros [->|[[r ->]|H]]; [reflexivity|reflexivity|].
  unfold parse_line. rewrite (cut_equals_none l H).
  destruct l as [|c l]; [reflexivity|].
  destruct c as [[] [] [] [] [] [] [] []]; reflexivity.
Qed.

Lemma parse_line_some l k v : parse_line l = Some (k, v) → ¬ skipped l.
Proof.
  intros H Hs. by rewrite (parse_line_skipped l Hs) in H.
Qed.

Lemma split_lines_nonempty s : split_lines s ≠ [].
Proof.
  destruct s as [|c s]; simpl; [discriminate|].
  case_bool_decide; [discriminate|].
  destruct (split_lines s); discriminate.
Qed.

Lemma split_lines_app a b :
  split_lines (a +:+ newline +:+ b) = split_lines a ++ split_lines b.
Proof.
  induction a as [|c a IH]; simpl.
  - reflexivity.
  - case_bool_decide; [by rewrite IH|].
    rewrite IH. pose proof (split_lines_nonempty a).
    destruct (split_lines a); [done|reflexivity].
Qed.

Lemma split_lines_one l : contains "010"%char l = false → split_lines l = [l].
Proof.
  induction l as [|c l IH]; simpl; [reflexivity|].
  case_bool_decide; simpl; [discriminate|].
  intros Hc. by rewrite (IH Hc).
Qed.

Lemma add_line_skipped m l : skipped l → add_line m l = m.
Proof. intros H. unfold add_line. by rewrite parse_line_skipped. Qed.

(** A key of the parsed KeySet was put there by a line. *)
Lemma parsed_key_from_line (ls : list string) (m0 : gmap string string) k :
  k ∈ dom (foldl add_line m0 ls) →
  k ∈ dom m0 ∨ ∃ l v, l ∈ ls ∧ parse_line l = Some (k, v).
Proof.
  revert m0. induction ls as [|l ls IH]; intros m0; simpl; [by left|].
  intros [H|(l' & v & Hl & Hp)]%IH.
  - unfold add_line in H. destruct (parse_line l) as [[k' v']|] eqn:Hp; [|by left].
    apply dom_insert in H. apply elem_of_union in H as [H|H]; [|by left].
    apply elem_of_singleton in H as ->. right. exists l, v'. split; [left|done].
  - right. exists l', v. split; [by right|done].
Qed.
End EnvFacts.

(** ** The claims on the format analyzers *)




(** C8.  [equal] is reflexive, and it is deep structural equality:
    mappings are equal iff they have the same key set and equal values
    under every key, sequences iff they have the same length and equal
    elements at every position, a scalar equals exactly itself; so two
    trees are equal iff they are the same tree. *)
Theorem equal_reflexive (number : Type) `{!EqDecision number} :
  (∀ T : Json.json number, Json.equal T T = true) ∧
  (∀ m1 m2 : gmap string (Json.json number),
     Json.equal (Json.JObject m1) (Json.JObject m2) = true ↔
     dom m1 = dom m2 ∧
     ∀ k v1 v2, m1 !! k = Some v1 → m2 !! k = Some v2 → Json.equal v1 v2 = true) ∧
  (∀ l1 l2 : list (Json.json number),
     Json.equal (Json.JArray l1) (Json.JArray l2) = true ↔
     length l1 = length l2 ∧
     ∀ i x y, l1 !! i = Some x → l2 !! i = Some y → Json.equal x y = true) ∧
  (∀ a b : Json.json number,
     Json.is_scalar a = true → (Json.equal a b = true ↔ a = b)) ∧
  (∀ a b : Json.json number, Json.equal a b = true ↔ a = b).
Proof.
  split; [intros T; by apply equal_eq|].
  split; [apply equal_object|].
  split; [apply equal_array|].
  split; [intros a b _; apply equal_eq|apply equal_eq].
Qed.

Lemma equal_reflexive_witness :
  Json.equal Sample.master_tree Sample.master_tree = true.
Proof. exact (proj1 (equal_reflexive Z) Sample.master_tree). Defined.

(** C7.  Env [diff] is empty iff every key that both KeySets hold has
    the same string as value in both; a key listed by [diff] is held by
    both KeySets, so a key missing from either is never listed; values
    are compared as strings, with no coercion. *)
Theorem diff_lists_changed_shared_keys :
  (∀ w m : gmap string string,
     Env.diff w m = [] ↔
     ∀ k v1 v2, w !! k = Some v1 → m !! k = Some v2 → v1 = v2) ∧
  (∀ (w m : gmap string string) (k : string),
     k ∈ Env.diff w m → is_Some (w !! k) ∧ is_Some (m !! k)) ∧
  (∀ (w m : gmap string string) (k : string),
     w !! k = None ∨ m !! k = None → k ∉ Env.diff w m) ∧
  Env.diff (Env.parseEnv Sample.changed_env) (Env.parseEnv Sample.master_env) = ["BAR"] ∧
  Env.diff (Env.parseEnv Sample.working_env) (Env.parseEnv Sample.master_env) = [] ∧
  Env.diff ({["PORT" := "80"]}) ({["PORT" := "080"]}) = ["PORT"].
Proof.
  split; [|split; [|split; [|split; [|split]]]].
  - intros w m. split.
    + intros Hd k v1 v2 Hw Hm. destruct (decide (v1 = v2)) as [|Hne]; [done|].
      assert (Hk : k ∈ Env.diff w m) by (apply elem_of_diff; eauto).
      rewrite Hd in Hk. by apply elem_of_nil in Hk.
    + intros H. destruct (Env.diff w m) as [|k ks] eqn:Hd; [reflexivity|].
      assert (Hk : k ∈ Env.diff w m) by (rewrite Hd; left).
      apply elem_of_diff in Hk as (v1 & v2 & Hw & Hm & Hne).
      destruct Hne. eauto.
  - intros w m k (v1 & v2 & Hw & Hm & _)%elem_of_diff. eauto.
  - intros w m k Hnone (v1 & v2 & Hw & Hm & _)%elem_of_diff.
    destruct Hnone; congruence.
  - vm_compute. reflexivity.
  - vm_compute. reflexivity.
  - vm_compute. reflexivity.
Qed.

Lemma diff_lists_changed_shared_keys_witness :
  "BAR" ∉ Env.diff (Env.parseEnv Sample.working_env) (Env.parseEnv Sample.master_env).
Proof.
  refine (proj1 (proj2 (proj2 diff_lists_changed_shared_keys)) _ _ "BAR" _).
  left. vm_compute. reflexivity.
Defined.

(** C9.  [parseEnv] is total, and a line that is blank, starts with [#]
    or has no [=] yields no entry: taking such a line out of the byte
    stream leaves the parsed KeySet unchanged.  Every key of the KeySet,
    hence every key that Env scan or diff lists, was read from a line
    that is none of these.  With the buffers loaded, [ScanEnv] returns a
    nil error whatever the buffers hold. *)
Theorem malformed_lines_are_skipped (l : string) :
  Env.skipped l →
  Env.parse_line l = None ∧
  (Env.contains "010"%char l = false →
   ∀ a b,
     Env.parseEnv (a +:+ newline +:+ l +:+ newline +:+ b) =
       Env.parseEnv (a +:+ newline +:+ b) ∧
     Env.parseEnv (l +:+ newline +:+ b) = Env.parseEnv b ∧
     Env.parseEnv (a +:+ newline +:+ l) = Env.parseEnv a ∧
     Env.parseEnv l = ∅) ∧
  (∀ s k, k ∈ dom (Env.parseEnv s) →
     ∃ l' v, l' ∈ Env.split_lines s ∧ Env.parse_line l' = Some (k, v) ∧
             ¬ Env.skipped l') ∧
  (∀ wb mb k,
     k ∈ Env.scan_keys (Env.parseEnv wb) (Env.parseEnv mb) ∨
     k ∈ Env.diff (Env.parseEnv wb) (Env.parseEnv mb) →
     ∃ l' v, l' ∈ Env.split_lines mb ∧ Env.parse_line l' = Some (k, v) ∧
             ¬ Env.skipped l') ∧
  (∀ c w t a t',
     newAnalyzer c w t = (Ok a, t') →
     ∃ ms, Env.ScanEnv c w t = ((ms, None), t')).
Proof.
  intros Hl.
  assert (Hkeys : ∀ s k, k ∈ dom (Env.parseEnv s) →
            ∃ l' v, l' ∈ Env.split_lines s ∧ Env.parse_line l' = Some (k, v) ∧
                    ¬ Env.skipped l').
  { intros s k [H|(l' & v & Hin & Hp)]%parsed_key_from_line.
    - rewrite dom_empty in H. by apply elem_of_empty in H.
    - exists l', v. split; [exact Hin|]. split; [exact Hp|].
      by apply (parse_line_some l' k v). }
  split; [by apply parse_line_skipped|]. split; [|split; [exact Hkeys|split]].
  - intros Hnl a b. unfold Env.parseEnv.
    rewrite !split_lines_app, (split_lines_one l Hnl), !foldl_app. simpl.
    rewrite !(add_line_skipped _ l Hl). done.
  - intros wb mb k Hk. apply Hkeys. apply elem_of_dom.
    destruct Hk as [[Hm _]%elem_of_scan_keys|(v1 & v2 & _ & Hm & _)%elem_of_diff];
      eauto.
  - intros c w t a t' Hnew. unfold Env.ScanEnv, ScanEnv, Env.newEnvAnalyzer, bind.
    rewrite Hnew. simpl. eauto.
Qed.

Lemma malformed_lines_are_skipped_witness :
  Env.skipped "# BAR=2" ∧
  Env.parseEnv ("FOO=1" +:+ newline +:+ "# BAR=2" +:+ newline +:+ "BAZ=3") =
    Env.parseEnv ("FOO=1" +:+ newline +:+ "BAZ=3").
Proof.
  assert (Hs : Env.skipped "# BAR=2") by (right; left; by eexists).
  split; [exact Hs|].
  exact (proj1 (proj1 (proj2 (malformed_lines_are_skipped "# BAR=2" Hs))
                  eq_refl "FOO=1" "BAZ=3")).
Defined.

(** ** The remaining scenarios of the design, as runs *)

(** Master [{"a":1}] against working [{"a":2}]: nothing is missing and
    the documents are not equal. *)
Example scenario_changed_value :
  Json.scan_tree [] Sample.working_tree Sample.changed_tree = [] ∧
  Json.equal Sample.changed_tree Sample.working_tree = false ∧
  Json.PrintJson Sample.decode Sample.local_json_changed Sample.local_world [] =
    (None,
     [EvReadFile "app.changed.json"; EvReadFile "app.json";
      EvPrint (different_report "app.changed.json" "app.json")]).
Proof. repeat split; vm_compute; reflexivity. Qed.

(** Master [FOO=1, BAR=2] against working [FOO=1]: [BAR] is missing. *)
Example scenario_missing_env_key :
  Env.scan_keys (Env.parseEnv Sample.working_env) (Env.parseEnv Sample.master_env)
    = ["BAR"] ∧
  Env.ScanEnv Sample.local_env Sample.local_world [] =
    ((["BAR"], None), [EvReadFile "app.env"; EvReadFile "app.example.env"]).
Proof. repeat split; vm_compute; reflexivity. Qed.

(** A file against itself: nothing is printed. *)
Example scenario_same_file :
  Json.PrintJson Sample.decode Sample.local_json_equal Sample.local_world [] =
    (None, [EvReadFile "app.json"; EvReadFile "app.json"]).
Proof. vm_compute. reflexivity. Qed.

(** A host that answers: the master comes through [scp]. *)
Example scenario_remote_master :
  Json.ScanJson Sample.decode Sample.remote_json Sample.remote_world [] =
    ((["b"], None),
     [EvSsh "prod"; EvReadFile "app.json"; EvScp "prod" "/etc/app.json"]).
Proof. vm_compute. reflexivity. Qed.

(** Keys and values are trimmed, and the last occurrence of a key wins. *)
Example scenario_trim_and_duplicates :
  Env.parseEnv ("  PORT = 80 " +:+ newline +:+ "PORT=8080") = {["PORT" := "8080"]} ∧
  Env.parseEnv (" NAME =  app server ") = {["NAME" := "app server"]}.
Proof. split; vm_compute; reflexivity. Qed.

(** ** More on the source loader *)

(** X1.  [newAnalyzer] succeeds exactly when both reads succeed, and
    then hands back a fresh analyzer holding the two buffers; it fails
    exactly when one of the two reads fails, with that read's error. *)
Theorem newAnalyzer_outcomes (c : Config) (w : World) (t : list event) :
  (∀ a t',
     newAnalyzer c w t = (Ok a, t') ↔
     ∃ wb mb,
       readFile w (WorkingPath c) = Ok wb ∧ fetch_master c w = Ok mb ∧
       a = loaded c wb mb ∧
       t' = t ++ connect_events c ++ [EvReadFile (WorkingPath c); master_event c]) ∧
  (∀ e t',
     newAnalyzer c w t = (Err e, t') ↔
     ∃ path e0 reads,
       read_failure c w path e0 reads ∧ e = open_error path e0 ∧
       t' = t ++ connect_events c ++ reads).
Proof.
  split.
  - intros a t'. rewrite newAnalyzer_run. split.
    + destruct (readFile w (WorkingPath c)) as [wb|e]; [|discriminate].
      destruct (fetch_master c w) as [mb|e]; [|discriminate].
      intros [= <- <-]. by exists wb, mb.
    + intros (wb & mb & -> & -> & -> & ->). reflexivity.
  - intros e t'. split.
    + rewrite newAnalyzer_run.
      destruct (readFile w (WorkingPath c)) as [wb|e0] eqn:Hw.
      * destruct (fetch_master c w) as [mb|e0] eqn:Hm; [discriminate|].
        intros [= <- <-]. eexists _, e0, _.
        split; [exact (master_unreadable c w wb e0 Hw Hm)|done].
      * intros [= <- <-]. eexists _, e0, _.
        split; [exact (working_unreadable c w e0 Hw)|done].
    + intros (path & e0 & reads & Hf & -> & ->).
      by apply newAnalyzer_read_failure.
Qed.


(** A failed working read on an analyzer that already holds buffers:
    the working buffer is reset, the master buffer is kept. *)
Example read_resets_working_on_failure :
  (read {| working := "old"; master := "kept"; bash_ := None;
           missing := []; different := [] |}
        "nowhere.json" "app.json" Sample.local_world []).1 =
    ({| working := EmptyString; master := "kept"; bash_ := None;
        missing := []; different := [] |},
     Some "could not open nowhere.json. open nowhere.json: no such file or directory").
Proof. vm_compute. reflexivity. Qed.

(** X6.  What [newAnalyzer] never does.  Without a host alias it does
    not use the transport.  With one it asks [ssh] first and the only
    path it reads from local disk is the working path. *)
Theorem newAnalyzer_io_discipline (c : Config) (w : World) (t : list event) :
  ∃ s, (newAnalyzer c w t).2 = t ++ s ∧
       (HostAlias c = EmptyString → Forall (λ e, is_remote e = false) s) ∧
       (HostAlias c ≠ EmptyString →
        ∃ s', s = EvSsh (HostAlias c) :: s' ∧
              ∀ p, EvReadFile p ∈ s' → p = WorkingPath c).
Proof.
  rewrite newAnalyzer_run. unfold connect_events, master_event.
  destruct (readFile w (WorkingPath c)) as [wb|e];
    [destruct (fetch_master c w) as [mb|e]|]; simpl;
    eexists; (split; [reflexivity|]); case_bool_decide as Hh;
    (split; [intros Heq; try done; by repeat constructor|]);
    intros Hne; try done;
    eexists; (split; [reflexivity|]); intros p Hp;
    repeat (apply elem_of_cons in Hp as [Hp|Hp]; [congruence|]);
    by apply elem_of_nil in Hp.
Qed.

Lemma newAnalyzer_io_discipline_witness :
  (newAnalyzer Sample.local_json Sample.local_world []).2 =
    [EvReadFile "app.json"; EvReadFile "app.example.json"] ∧
  Forall (λ e, is_remote e = false)
    (newAnalyzer Sample.local_json Sample.local_world []).2.
Proof.
  destruct (newAnalyzer_io_discipline Sample.local_json Sample.local_world [])
    as (s & Hs & Hlocal & _).
  split; [reflexivity|]. rewrite Hs. exact (Hlocal eq_refl).
Defined.

(** ** More on the public operations *)

Lemma printed_app (t1 t2 : list event) :
  printed (t1 ++ t2) = printed t1 ++ printed t2.
Proof. apply omap_app. Qed.

Lemma ret_silent {A : Type} (a : A) : silent (ret a).
Proof. intros w t. reflexivity. Qed.

Lemma newAnalyzer_silent (c : Config) : silent (newAnalyzer c).
Proof.
  intros w t. rewrite newAnalyzer_run. unfold connect_events, master_event.
  destruct (readFile w (WorkingPath c)); [destruct (fetch_master c w)|];
    simpl; rewrite printed_app; case_bool_decide; simpl; by rewrite app_nil_r.
Qed.

Lemma newJsonAnalyzer_silent {number : Type}
    (parseJSON : bytes → result (Json.json number)) (c : Config) :
  silent (Json.newJsonAnalyzer parseJSON c).
Proof.
  intros w t. pose proof (newAnalyzer_silent c w t) as H.
  unfold Json.newJsonAnalyzer, bind. destruct (newAnalyzer c w t) as [[a|e] t1];
    simpl in *; [|exact H].
  destruct (parseJSON (working a)); [destruct (parseJSON (master a))|]; exact H.
Qed.

Lemma newEnvAnalyzer_silent (c : Config) : silent (Env.newEnvAnalyzer c).
Proof.
  intros w t. pose proof (newAnalyzer_silent c w t) as H.
  unfold Env.newEnvAnalyzer, bind. destruct (newAnalyzer c w t) as [[a|e] t1];
    exact H.
Qed.

(** X3.  The print operations agree with the scan operations.  When
    [ScanJson] returns an error, [PrintJson] returns the same error with
    the same log; when [ScanJson] returns a non-empty list, [PrintJson]
    returns nil and its log is [ScanJson]'s followed by the one line that
    reports that list.  The same holds of [PrintEnv] and [ScanEnv]. *)
Theorem print_agrees_with_scan {J E : Type}
    (newJ : Config → M (result J)) (jscan : J → M J) (jmissing : J → list string)
    (equality : J → M (result bool))
    (newE : Config → M (result E)) (escan : E → M E)
    (emissing edifferent : E → list string)
    (c : Config) (w : World) (t : list event) :
  (∀ ms e t',
     ScanJson newJ jscan jmissing c w t = ((ms, Some e), t') →
     PrintJson newJ jscan jmissing equality c w t = (Some e, t')) ∧
  (∀ ms t',
     ScanJson newJ jscan jmissing c w t = ((ms, None), t') → ms ≠ [] →
     PrintJson newJ jscan jmissing equality c w t =
       (None, t' ++ [EvPrint (missing_report (WorkingPath c) ms)])) ∧
  (∀ ms e t',
     ScanEnv newE escan emissing c w t = ((ms, Some e), t') →
     PrintEnv newE escan emissing edifferent c w t = (Some e, t')) ∧
  (∀ ms t',
     ScanEnv newE escan emissing c w t = ((ms, None), t') → ms ≠ [] →
     PrintEnv newE escan emissing edifferent c w t =
       (None, t' ++ [EvPrint (missing_report (WorkingPath c) ms)])).
Proof.
  repeat split.
  - intros ms e t'. unfold ScanJson, PrintJson, bind, ret.
    destruct (newJ c w t) as [[a|e'] t1]; [destruct (jscan a w t1)|]; congruence.
  - intros ms t'. unfold ScanJson, PrintJson, bind, ret.
    destruct (newJ c w t) as [[a|e'] t1]; [|discriminate].
    destruct (jscan a w t1) as [a' t2]. intros [= <- <-] Hms.
    destruct (jmissing a'); [done|reflexivity].
  - intros ms e t'. unfold ScanEnv, PrintEnv, bind, ret.
    destruct (newE c w t) as [[a|e'] t1]; [destruct (escan a w t1)|]; congruence.
  - intros ms t'. unfold ScanEnv, PrintEnv, bind, ret.
    destruct (newE c w t) as [[a|e'] t1]; [|discriminate].
    destruct (escan a w t1) as [a' t2]. intros [= <- <-] Hms.
    destruct (emissing a'); [done|reflexivity].
Qed.

Lemma print_agrees_with_scan_witness :
  Json.ScanJson Sample.decode Sample.local_json Sample.local_world [] =
    ((["b"], None), [EvReadFile "app.json"; EvReadFile "app.example.json"]) ∧
  Json.PrintJson Sample.decode Sample.local_json Sample.local_world [] =
    (None,
     [EvReadFile "app.json"; EvReadFile "app.example.json"] ++
     [EvPrint (missing_report "app.json" ["b"])]).
Proof.
  assert (Hscan :
    Json.ScanJson Sample.decode Sample.local_json Sample.local_world [] =
      ((["b"], None), [EvReadFile "app.json"; EvReadFile "app.example.json"]))
    by (vm_compute; reflexivity).
  split; [exact Hscan|].
  exact (proj1 (proj2 (print_agrees_with_scan
    (Json.newJsonAnalyzer Sample.decode) (λ ja, ret (Json.scan ja))
    (λ ja, missing (Json.base ja)) (λ ja, ret (Json.equality ja))
    Env.newEnvAnalyzer (λ ea, ret (Env.scan ea)) (λ ea, missing (Env.base ea))
    (λ ea, different (Env.base ea))
    Sample.local_json Sample.local_world [])) ["b"] _ Hscan ltac:(discriminate)).
Defined.

(** X4.  What the print operations write.  If the format analyzer writes
    nothing itself, [PrintJson] adds to standard output either nothing,
    or the one line reporting a non-empty list of missing keys, or the
    one line saying that the files differ; [PrintEnv] adds either
    nothing, or the missing-keys line, or the notice followed by the line
    of a non-empty list of differing keys.  Neither writes anything when
    it returns an error. *)
Theorem print_operations_output {J E : Type}
    (newJ : Config → M (result J)) (jscan : J → M J) (jmissing : J → list string)
    (equality : J → M (result bool))
    (newE : Config → M (result E)) (escan : E → M E)
    (emissing edifferent : E → list string)
    (c : Config) :
  (silent (newJ c) → (∀ a, silent (jscan a)) → (∀ a, silent (equality a)) →
   ∀ w t, ∃ out,
     printed (PrintJson newJ jscan jmissing equality c w t).2 = printed t ++ out ∧
     ((PrintJson newJ jscan jmissing equality c w t).1 ≠ None → out = []) ∧
     (out = [] ∨
      (∃ ms, ms ≠ [] ∧ out = [missing_report (WorkingPath c) ms]) ∨
      out = [different_report (WorkingPath c) (MasterPath c)])) ∧
  (silent (newE c) → (∀ a, silent (escan a)) →
   ∀ w t, ∃ out,
     printed (PrintEnv newE escan emissing edifferent c w t).2 = printed t ++ out ∧
     ((PrintEnv newE escan emissing edifferent c w t).1 ≠ None → out = []) ∧
     (out = [] ∨
      (∃ ms, ms ≠ [] ∧ out = [missing_report (WorkingPath c) ms]) ∨
      (∃ ds, ds ≠ [] ∧
         out = [different_report (WorkingPath c) (MasterPath c); slice_line ds]))).
Proof.
  split.
  - intros Hn Hs He w t. unfold PrintJson, bind, Printf, emit, ret.
    specialize (Hn w t). destruct (newJ c w t) as [[a|e] t1]; simpl in Hn.
    2: { exists []. rewrite app_nil_r. simpl. split; [exact Hn|]. split; [done|by left]. }
    specialize (Hs a w t1). destruct (jscan a w t1) as [a' t2]; simpl in Hs.
    destruct (jmissing a') as [|k ks] eqn:Hm; simpl.
    + specialize (He a' w t2).
      destruct (equality a' w t2) as [[[|]|e] t3]; simpl in *.
      * exists []. rewrite app_nil_r. split; [congruence|]. split; [done|by left].
      * exists [different_report (WorkingPath c) (MasterPath c)].
        simpl. rewrite printed_app. simpl.
        split; [congruence|]. split; [done|]. by right; right.
      * exists []. rewrite app_nil_r. split; [congruence|]. split; [done|by left].
    + exists [missing_report (WorkingPath c) (k :: ks)].
      simpl. rewrite printed_app. simpl.
      split; [congruence|]. split; [done|]. right. left.
      exists (k :: ks). by split.
  - intros Hn Hs w t. unfold PrintEnv, bind, Printf, emit, ret.
    specialize (Hn w t). destruct (newE c w t) as [[a|e] t1]; simpl in Hn.
    2: { exists []. rewrite app_nil_r. simpl. split; [exact Hn|]. split; [done|by left]. }
    specialize (Hs a w t1). destruct (escan a w t1) as [a' t2]; simpl in Hs.
    destruct (emissing a') as [|k ks] eqn:Hm; simpl.
    + destruct (edifferent a') as [|d ds] eqn:Hd; simpl.
      * exists []. rewrite app_nil_r. split; [congruence|]. split; [done|by left].
      * exists [different_report (WorkingPath c) (MasterPath c);
                slice_line (d :: ds)].
        simpl. rewrite !printed_app. simpl.
        rewrite <- app_assoc. simpl.
        split; [congruence|]. split; [done|]. right. right.
        exists (d :: ds). by split.
    + exists [missing_report (WorkingPath c) (k :: ks)].
      simpl. rewrite printed_app. simpl.
      split; [congruence|]. split; [done|]. right. left.
      exists (k :: ks). by split.
Qed.

Lemma print_operations_output_witness :
  ∃ out,
    printed (Env.PrintEnv Sample.local_env_changed Sample.local_world []).2 = [] ++ out ∧
    (out = [] ∨
     (∃ ms, ms ≠ [] ∧ out = [missing_report "app.changed.env" ms]) ∨
     (∃ ds, ds ≠ [] ∧
        out = [different_report "app.changed.env" "app.example.env"; slice_line ds])).
Proof.
  destruct (proj2 (print_operations_output
    (Json.newJsonAnalyzer Sample.decode) (λ ja, ret (Json.scan ja))
    (λ ja, missing (Json.base ja)) (λ ja, ret (Json.equality ja))
    Env.newEnvAnalyzer (λ ea, ret (Env.scan ea)) (λ ea, missing (Env.base ea))
    (λ ea, different (Env.base ea)) Sample.local_env_changed)
    (newEnvAnalyzer_silent _) (λ ea, ret_silent _) Sample.local_world [])
    as (out & Hout & _ & Hshape).
  exists out. split; [exact Hout|exact Hshape].
Defined.

(** X5.  The scan operations write nothing: if the format analyzer
    writes nothing itself, neither do [ScanJson] and [ScanEnv]. *)
Theorem scan_operations_print_nothing {J E : Type}
    (newJ : Config → M (result J)) (jscan : J → M J) (jmissing : J → list string)
    (newE : Config → M (result E)) (escan : E → M E) (emissing : E → list string)
    (c : Config) :
  (silent (newJ c) → (∀ a, silent (jscan a)) →
   silent (ScanJson newJ jscan jmissing c)) ∧
  (silent (newE c) → (∀ a, silent (escan a)) →
   silent (ScanEnv newE escan emissing c)).
Proof.
  split; intros Hn Hs w t.
  - unfold ScanJson, bind. specialize (Hn w t).
    destruct (newJ c w t) as [[a|e] t1]; simpl in *; [|exact Hn].
    specialize (Hs a w t1). destruct (jscan a w t1); simpl in *. congruence.
  - unfold ScanEnv, bind. specialize (Hn w t).
    destruct (newE c w t) as [[a|e] t1]; simpl in *; [|exact Hn].
    specialize (Hs a w t1). destruct (escan a w t1); simpl in *. congruence.
Qed.

Lemma scan_operations_print_nothing_witness :
  printed (Json.ScanJson Sample.decode Sample.remote_json Sample.remote_world []).2
    = [].
Proof.
  exact (proj1 (scan_operations_print_nothing
    (Json.newJsonAnalyzer Sample.decode) (λ ja, ret (Json.scan ja))
    (λ ja, missing (Json.base ja))
    Env.newEnvAnalyzer (λ ea, ret (Env.scan ea)) (λ ea, missing (Env.base ea))
    Sample.remote_json)
    (newJsonAnalyzer_silent _ _) (λ ja, ret_silent _) Sample.remote_world []).
Defined.
